(** * A shallow embedding of myrient_zip_crawler.py

    The crawler of src/myrient_zip_crawler.py, modelled in Rocq:
    - the Python string operations it uses (lower, strip, rstrip, split,
      startswith, endswith) over ASCII strings;
    - urllib.parse.urlparse and urljoin, which the scope filter and the link
      extraction call;
    - the scope filter [is_valid_url], the classifiers [is_target_file],
      [is_directory] and [should_skip_file], and [extract_links];
    - the shared crawler state (visited_urls, zip_urls, url_queue) with
      [crawl_url] as explicit state passing, and the worker threads as an
      interleaving step relation;
    - [save_results] and the tail of [main];
    - [test_connection] of src/test_connection.py.

    Strings are modelled as ASCII text: [lower] and [strip] follow Python's
    str.lower and str.strip on code points below 128. *)

From Stdlib Require Import Strings.String Strings.Ascii Lists.List Bool Arith Lia.
From Stdlib Require Import Sorting.Permutation Sorting.Sorted NArith.
Import ListNotations.
Open Scope string_scope.
Open Scope nat_scope.

(** ** Python string operations *)

Definition code (c : ascii) : nat := nat_of_ascii c.

Definition is_ascii_alpha (c : ascii) : bool :=
  let n := code c in ((65 <=? n) && (n <=? 90)) || ((97 <=? n) && (n <=? 122)).

Definition is_ascii_digit (c : ascii) : bool :=
  let n := code c in (48 <=? n) && (n <=? 57).

(** [str.lower] on one character. *)
Definition lower_char (c : ascii) : ascii :=
  let n := code c in
  if (65 <=? n) && (n <=? 90) then ascii_of_nat (n + 32) else c.

Fixpoint lower (s : string) : string :=
  match s with
  | EmptyString => EmptyString
  | String c s' => String (lower_char c) (lower s')
  end.

(** The characters [str.strip()] removes: \t \n \v \f \r, \x1c..\x1f, space. *)
Definition is_py_space (c : ascii) : bool :=
  let n := code c in ((9 <=? n) && (n <=? 13)) || ((28 <=? n) && (n <=? 32)).

Fixpoint lstrip_by (p : ascii -> bool) (s : string) : string :=
  match s with
  | EmptyString => EmptyString
  | String c s' => if p c then lstrip_by p s' else s
  end.

Fixpoint rstrip_by (p : ascii -> bool) (s : string) : string :=
  match s with
  | EmptyString => EmptyString
  | String c s' =>
      match rstrip_by p s' with
      | EmptyString => if p c then EmptyString else String c EmptyString
      | r => String c r
      end
  end.

Definition strip (s : string) : string := rstrip_by is_py_space (lstrip_by is_py_space s).

(** [s.rstrip('/')] *)
Definition rstrip_slash (s : string) : string := rstrip_by (fun c => Ascii.eqb c "/") s.

Fixpoint filter_chars (p : ascii -> bool) (s : string) : string :=
  match s with
  | EmptyString => EmptyString
  | String c s' => if p c then String c (filter_chars p s') else filter_chars p s'
  end.

Fixpoint forall_chars (p : ascii -> bool) (s : string) : bool :=
  match s with
  | EmptyString => true
  | String c s' => p c && forall_chars p s'
  end.

Fixpoint has_char (c : ascii) (s : string) : bool :=
  match s with
  | EmptyString => false
  | String d s' => Ascii.eqb d c || has_char c s'
  end.

(** [s.split(c, 1)] when [c in s]: the text before and after the first [c]. *)
Fixpoint split_first (c : ascii) (s : string) : option (string * string) :=
  match s with
  | EmptyString => None
  | String d s' =>
      if Ascii.eqb d c then Some (EmptyString, s')
      else match split_first c s' with
           | Some (a, b) => Some (String d a, b)
           | None => None
           end
  end.

(** [s.split(c)] with a one-character separator; never empty. *)
Fixpoint split_on (c : ascii) (s : string) : list string :=
  match s with
  | EmptyString => [EmptyString]
  | String d s' =>
      let parts := split_on c s' in
      if Ascii.eqb d c then EmptyString :: parts
      else match parts with
           | p :: ps => String d p :: ps
           | [] => [String d EmptyString]
           end
  end.

(** [sep.join(l)] *)
Definition join (sep : string) (l : list string) : string := String.concat sep l.

(** [s.startswith(p)] *)
Definition startswith (p s : string) : bool := String.prefix p s.

(** [s.endswith(suf)] *)
Fixpoint endswith (suf s : string) : bool :=
  String.eqb s suf ||
  match s with
  | EmptyString => false
  | String _ s' => endswith suf s'
  end.

(** The prefix before the first character satisfying [p], and the rest. *)
Fixpoint break_at (p : ascii -> bool) (s : string) : string * string :=
  match s with
  | EmptyString => (EmptyString, EmptyString)
  | String c s' =>
      if p c then (EmptyString, s)
      else let '(a, b) := break_at p s' in (String c a, b)
  end.

Definition in_strings (x : string) (l : list string) : bool :=
  existsb (String.eqb x) l.

(** ** urllib.parse *)

Definition uses_relative : list string :=
  [""; "ftp"; "http"; "gopher"; "nntp"; "imap"; "wais"; "file"; "https";
   "shttp"; "mms"; "prospero"; "rtsp"; "rtsps"; "rtspu"; "sftp"; "svn";
   "svn+ssh"; "ws"; "wss"].

Definition uses_netloc : list string :=
  [""; "ftp"; "http"; "gopher"; "nntp"; "telnet"; "imap"; "wais"; "file";
   "mms"; "https"; "shttp"; "snews"; "prospero"; "rtsp"; "rtsps"; "rtspu";
   "rsync"; "svn"; "svn+ssh"; "sftp"; "nfs"; "git"; "git+ssh"; "ws"; "wss";
   "itms-services"].

Definition uses_params : list string :=
  [""; "ftp"; "hdl"; "prospero"; "http"; "imap"; "https"; "shttp"; "rtsp";
   "rtsps"; "rtspu"; "sip"; "sips"; "mms"; "sftp"; "tel"].

Definition scheme_char (c : ascii) : bool :=
  is_ascii_alpha c || is_ascii_digit c ||
  Ascii.eqb c "+" || Ascii.eqb c "-" || Ascii.eqb c ".".

(** _WHATWG_C0_CONTROL_OR_SPACE, stripped from the left of the url. *)
Definition is_c0_or_space (c : ascii) : bool := code c <=? 32.

(** _UNSAFE_URL_BYTES_TO_REMOVE: tab, carriage return, line feed. *)
Definition is_unsafe_byte (c : ascii) : bool :=
  Ascii.eqb c "009" || Ascii.eqb c "010" || Ascii.eqb c "013".

Definition is_netloc_delim (c : ascii) : bool :=
  Ascii.eqb c "/" || Ascii.eqb c "?" || Ascii.eqb c "#".

(** The scheme test of urlsplit: the text before the first ':' is non-empty,
    starts with an ASCII letter and consists of scheme characters. *)
Definition split_scheme (url : string) : option (string * string) :=
  match split_first ":" url with
  | Some (pre, post) =>
      match pre with
      | String c _ =>
          if is_ascii_alpha c && forall_chars scheme_char pre
          then Some (lower pre, post) else None
      | EmptyString => None
      end
  | None => None
  end.

Record url_parts := mk_parts {
  u_scheme : string; u_netloc : string; u_path : string;
  u_params : string; u_query : string; u_fragment : string }.

(** urlsplit(url, scheme); the validation of bracketed IPv6 hosts and of
    NFKC-normalised netlocs (which raise ValueError) is not modelled. *)
Definition urlsplit (url default_scheme : string)
  : string * string * string * string * string :=
  let url := filter_chars (fun c => negb (is_unsafe_byte c))
                          (lstrip_by is_c0_or_space url) in
  let '(scheme, url) :=
    match split_scheme url with Some p => p | None => (default_scheme, url) end in
  let '(netloc, url) :=
    if startswith "//" url
    then break_at is_netloc_delim (String.substring 2 (String.length url) url)
    else (EmptyString, url) in
  let '(url, fragment) :=
    match split_first "#" url with Some p => p | None => (url, EmptyString) end in
  let '(url, query) :=
    match split_first "?" url with Some p => p | None => (url, EmptyString) end in
  (scheme, netloc, url, query, fragment).

(** _splitparams: split at the first ';' of the last path segment. *)
Definition split_params (url : string) : string * string :=
  match rev (split_on "/" url) with
  | last :: rinit =>
      match split_first ";" last with
      | Some (a, b) => (join "/" (rev rinit ++ [a])%list, b)
      | None => (url, EmptyString)
      end
  | [] => (url, EmptyString)
  end.

Definition urlparse_with (url default_scheme : string) : url_parts :=
  let '(scheme, netloc, path, query, fragment) := urlsplit url default_scheme in
  let '(path, params) :=
    if in_strings scheme uses_params && has_char ";" path
    then split_params path else (path, EmptyString) in
  mk_parts scheme netloc path params query fragment.

Definition urlparse (url : string) : url_parts := urlparse_with url "".

(** ** MyrientZipCrawler.is_valid_url *)

Definition is_valid_url (base_url url : string) : bool :=
  let parsed_base := urlparse base_url in
  let parsed_url := urlparse url in
  if negb (String.eqb (u_netloc parsed_url) (u_netloc parsed_base)) then false
  else
    let base_path := rstrip_slash (u_path parsed_base) in
    let url_path := rstrip_slash (u_path parsed_url) in
    if negb (startswith base_path url_path) then false
    else
      let base_path_parts :=
        if String.eqb base_path "" then [] else split_on "/" base_path in
      let url_path_parts :=
        if String.eqb url_path "" then [] else split_on "/" url_path in
      if List.length url_path_parts <? List.length base_path_parts then false
      else true.

(** urlunsplit and urlunparse (Python 3.12). *)
Definition urlunsplit (scheme netloc url query fragment : string) : string :=
  let url :=
    if negb (String.eqb netloc "") then
      let url := if negb (String.eqb url "") && negb (startswith "/" url)
                 then "/" ++ url else url in
      "//" ++ netloc ++ url
    else if startswith "//" url then "//" ++ url
    else if negb (String.eqb scheme "") && in_strings scheme uses_netloc &&
            (String.eqb url "" || startswith "/" url)
    then "//" ++ url
    else url in
  let url := if negb (String.eqb scheme "") then scheme ++ ":" ++ url else url in
  let url := if negb (String.eqb query "") then url ++ "?" ++ query else url in
  if negb (String.eqb fragment "") then url ++ "#" ++ fragment else url.

Definition urlunparse (scheme netloc url params query fragment : string) : string :=
  let url := if negb (String.eqb params "") then url ++ ";" ++ params else url in
  urlunsplit scheme netloc url query fragment.

(** [segments[1:-1] = filter(None, segments[1:-1])] *)
Definition filter_middle (segments : list string) : list string :=
  match segments with
  | [] => []
  | [x] => [x]
  | x :: rest =>
      (x :: filter (fun s => negb (String.eqb s "")) (removelast rest)
         ++ [last rest ""])%list
  end.

(** The loop over segments building [resolved_path] (kept reversed). *)
Definition resolve_segments (segments : list string) : list string :=
  rev (fold_left
         (fun acc seg =>
            if String.eqb seg ".." then tl acc
            else if String.eqb seg "." then acc
            else seg :: acc)
         segments []).

(** urllib.parse.urljoin(base, url) *)
Definition urljoin (base url : string) : string :=
  if String.eqb base "" then url else
  if String.eqb url "" then base else
  let b := urlparse_with base "" in
  let u := urlparse_with url (u_scheme b) in
  let scheme := u_scheme u in
  if negb (String.eqb scheme (u_scheme b)) || negb (in_strings scheme uses_relative)
  then url else
  if in_strings scheme uses_netloc && negb (String.eqb (u_netloc u) "")
  then urlunparse scheme (u_netloc u) (u_path u) (u_params u) (u_query u) (u_fragment u)
  else
  let netloc := if in_strings scheme uses_netloc then u_netloc b else u_netloc u in
  if String.eqb (u_path u) "" && String.eqb (u_params u) "" then
    urlunparse scheme netloc (u_path b) (u_params b)
      (if String.eqb (u_query u) "" then u_query b else u_query u) (u_fragment u)
  else
  let base_parts := split_on "/" (u_path b) in
  let base_parts :=
    if negb (String.eqb (last base_parts "") "") then removelast base_parts
    else base_parts in
  let segments :=
    if startswith "/" (u_path u) then split_on "/" (u_path u)
    else filter_middle (base_parts ++ split_on "/" (u_path u))%list in
  let resolved_path := resolve_segments segments in
  let resolved_path :=
    if in_strings (last segments "") ["."; ".."]
    then (resolved_path ++ [""])%list else resolved_path in
  let p := join "/" resolved_path in
  urlunparse scheme netloc (if String.eqb p "" then "/" else p)
    (u_params u) (u_query u) (u_fragment u).

(** ** The classifiers *)

(** [self.file_types = [f".{ext.strip().lower()}" for ext in file_types.split(',')]] *)
Definition parse_file_types (file_types : string) : list string :=
  map (fun ext => "." ++ lower (strip ext)) (split_on "," file_types).

Definition is_target_file (file_types : list string) (url : string) : bool :=
  let url_lower := lower url in
  existsb (fun ext => endswith ext url_lower) file_types.

Definition is_directory (url : string) : bool := endswith "/" url.

Definition skip_extensions : list string :=
  [".mp4"; ".avi"; ".mkv"; ".mov"; ".wmv"; ".flv"; ".webm";
   ".mp3"; ".wav"; ".flac"; ".aac"; ".ogg"; ".m4a";
   ".jpg"; ".jpeg"; ".png"; ".gif"; ".bmp"; ".tiff"; ".webp";
   ".pdf"; ".doc"; ".docx"; ".txt"; ".rtf";
   ".exe"; ".msi"; ".dmg"; ".pkg"; ".deb"; ".rpm";
   ".iso"; ".bin"; ".cue"; ".img";
   ".json"; ".xml"; ".csv"; ".sql"; ".db"; ".sqlite"].

Definition should_skip_file (file_types : list string) (url : string) : bool :=
  if is_target_file file_types url then false
  else
    let url_lower := lower url in
    existsb (fun ext => endswith ext url_lower) skip_extensions.

(** ** The crawler state

    [visited_urls] and [zip_urls] are Python sets, kept as lists in
    insertion order (the order in which a set is iterated is not fixed);
    [url_queue] is the FIFO queue.Queue.  Two fields record what the code
    only logs or does: [enqueued] lists every [url_queue.put], in order, and
    [errors] every URL passed to [logging.error]. *)
Record crawler := mk_crawler {
  base_url : string;
  file_types : list string;
  visited_urls : list string;
  zip_urls : list string;
  url_queue : list string;
  enqueued : list string;
  errors : list string }.

(** [set.add] *)
Definition set_add (x : string) (s : list string) : list string :=
  if in_strings x s then s else (s ++ [x])%list.

Definition set_zip_urls (st : crawler) (z : list string) : crawler :=
  mk_crawler (base_url st) (file_types st) (visited_urls st) z
    (url_queue st) (enqueued st) (errors st).

Definition set_queue (st : crawler) (q : list string) : crawler :=
  mk_crawler (base_url st) (file_types st) (visited_urls st) (zip_urls st)
    q (enqueued st) (errors st).

Definition log_error (st : crawler) (url : string) : crawler :=
  mk_crawler (base_url st) (file_types st) (visited_urls st) (zip_urls st)
    (url_queue st) (enqueued st) (errors st ++ [url])%list.

(** [__init__]: the base URL is normalised to end with '/' and put on the
    queue; [visited_urls] starts empty. *)
Definition init (base_url file_types : string) : crawler :=
  let b := rstrip_slash base_url ++ "/" in
  mk_crawler b (parse_file_types file_types) [] [] [b] [b] [].

(** [extract_links]: [hrefs] are the href values of the anchors of the page,
    in document order, as BeautifulSoup's find_all('a', href=True) returns
    them.  Target files are added to [zip_urls] at once; the directories to
    crawl are returned. *)
Fixpoint extract_links_loop (st : crawler) (current_url : string)
    (hrefs : list string) (links : list string) : crawler * list string :=
  match hrefs with
  | [] => (st, links)
  | href :: rest =>
      if in_strings href ["../"; ".."] then extract_links_loop st current_url rest links
      else
        let absolute_url := urljoin current_url href in
        if is_valid_url (base_url st) absolute_url then
          if is_target_file (file_types st) absolute_url then
            extract_links_loop (set_zip_urls st (set_add absolute_url (zip_urls st)))
              current_url rest links
          else if should_skip_file (file_types st) absolute_url then
            extract_links_loop st current_url rest links
          else if is_directory absolute_url then
            extract_links_loop st current_url rest (links ++ [absolute_url])%list
          else extract_links_loop st current_url rest links
        else extract_links_loop st current_url rest links
  end.

Definition extract_links (st : crawler) (hrefs : list string) (current_url : string)
  : crawler * list string :=
  extract_links_loop st current_url hrefs [].

(** The loop of [crawl_url] that enqueues the new links, under the lock. *)
Definition enqueue_link (st : crawler) (link : string) : crawler :=
  if in_strings link (visited_urls st) then st
  else mk_crawler (base_url st) (file_types st) (set_add link (visited_urls st))
         (zip_urls st) (url_queue st ++ [link])%list (enqueued st ++ [link])%list
         (errors st).

Definition enqueue_links (st : crawler) (links : list string) : crawler :=
  fold_left enqueue_link links st.

(** What [self.session.get(url, timeout=30, allow_redirects=True)] gives:
    a timeout, another transport failure (requests.RequestException), or the
    final response after redirects, with its status and the hrefs of its
    page. *)
Inductive fetch_result :=
| FetchTimeout
| FetchTransportError
| FetchResponse (status : nat) (hrefs : list string).

(** [response.raise_for_status()] raises for 400 <= status < 600. *)
Definition raise_for_status (status : nat) : bool :=
  (400 <=? status) && (status <? 600).

(** [crawl_url]; the rate-limit sleep and the logging other than
    [logging.error] have no effect on the state. *)
Definition crawl_url (st : crawler) (url : string) (r : fetch_result) : crawler :=
  if negb (is_directory url) then st
  else
    match r with
    | FetchTimeout | FetchTransportError => log_error st url
    | FetchResponse status hrefs =>
        if raise_for_status status then log_error st url
        else
          let '(st', links) := extract_links st hrefs url in
          enqueue_links st' links
    end.

(** One worker alone: [get] the next URL and crawl it, until the queue is
    empty; [site] gives the fetch result of each URL. *)
Fixpoint run (fuel : nat) (site : string -> fetch_result) (st : crawler) : crawler :=
  match fuel with
  | 0 => st
  | S fuel' =>
      match url_queue st with
      | [] => st
      | u :: q => run fuel' site (crawl_url (set_queue st q) u (site u))
      end
  end.

(** The scenario of the spec: root [http://h/files/] lists [a/] and [x.zip];
    [a/] lists [y.zip] and [../]. *)
Definition scenario_site (u : string) : fetch_result :=
  if String.eqb u "http://h/files/" then FetchResponse 200 ["a/"; "x.zip"]
  else if String.eqb u "http://h/files/a/" then FetchResponse 200 ["y.zip"; "../"]
  else FetchResponse 404 [].

(** ** The worker threads

    Each thread runs [worker]: [url_queue.get(timeout=5)], then [crawl_url],
    then [task_done], in a loop; [queue.Empty] (the get timed out) breaks the
    loop.  A worker is [Idle] before its get, [Busy url] inside [crawl_url url]
    and [Stopped] after the break.  The threads interleave at these steps; a
    get can time out only when the queue is empty, and any fetch result can
    come back from the network. *)
Inductive wstatus := Idle | Busy (url : string) | Stopped.

Record world := mk_world { shared : crawler; workers : list wstatus }.

Fixpoint upd {A} (l : list A) (i : nat) (x : A) : list A :=
  match l, i with
  | [], _ => []
  | _ :: l', 0 => x :: l'
  | y :: l', S i' => y :: upd l' i' x
  end.

Inductive worker_step : world -> nat -> world -> Prop :=
| step_get w i u q :
    nth_error (workers w) i = Some Idle ->
    url_queue (shared w) = u :: q ->
    worker_step w i (mk_world (set_queue (shared w) q) (upd (workers w) i (Busy u)))
| step_timeout w i :
    nth_error (workers w) i = Some Idle ->
    url_queue (shared w) = [] ->
    worker_step w i (mk_world (shared w) (upd (workers w) i Stopped))
| step_crawl w i u r :
    nth_error (workers w) i = Some (Busy u) ->
    worker_step w i (mk_world (crawl_url (shared w) u r) (upd (workers w) i Idle)).

(** [crawl()] starts [max_threads] workers on the state built by [__init__]. *)
Definition start (st : crawler) (max_threads : nat) : world :=
  mk_world st (repeat Idle max_threads).

Inductive reachable : world -> Prop :=
| reach_start base ft n : reachable (start (init base ft) n)
| reach_step w i w' : reachable w -> worker_step w i w' -> reachable w'.

(** The number of workers inside [crawl_url]. *)
Definition in_flight (w : world) : nat :=
  length (filter (fun s => match s with Busy _ => true | _ => false end) (workers w)).

(** ** save_results

    [sorted()] on strings orders them by code point; it is modelled by an
    insertion sort on [String.compare].  The file is written in UTF-8, which
    is the identity on ASCII text. *)
Fixpoint insert_sorted (x : string) (l : list string) : list string :=
  match l with
  | [] => [x]
  | y :: l' => if String.leb x y then x :: l else y :: insert_sorted x l'
  end.

Fixpoint sorted (l : list string) : list string :=
  match l with
  | [] => []
  | x :: l' => insert_sorted x (sorted l')
  end.

Definition newline : string := String "010" EmptyString.

(** The bytes written by [save_results]: [f.write(f"{url}\n")] for each url
    of [sorted(self.zip_urls)]. *)
Definition save_results (zip_urls : list string) : string :=
  String.concat "" (map (fun url => url ++ newline) (sorted zip_urls)).

(** ** main, after the crawler is built

    How the [try] block of [main] ends: [crawl()] and [save_results] both
    return, a KeyboardInterrupt is raised in either, or another exception. *)
Inductive run_end := Completed | Interrupted | Failed (msg : string).

Fixpoint digits_of (fuel n : nat) (acc : string) : string :=
  match fuel with
  | 0 => acc
  | S fuel' =>
      let acc := String (ascii_of_nat (48 + n mod 10)) acc in
      if n <? 10 then acc else digits_of fuel' (n / 10) acc
  end.

(** [str(n)] for a natural number. *)
Definition nat_to_string (n : nat) : string := digits_of (S n) n "".

(** The lines [main] prints once the [try] block ends, given how it ended,
    [len(crawler.zip_urls)] and [args.output]. *)
Definition main_report (e : run_end) (found : nat) (output : string) : list string :=
  match e with
  | Completed =>
      [newline ++ "Crawling completed successfully!";
       "Found " ++ nat_to_string found ++ " target files";
       "Results saved to: " ++ output]
  | Interrupted => [newline ++ "Crawling interrupted by user"]
  | Failed msg => [newline ++ "Crawling failed: " ++ msg]
  end.

(** ** The scope of the spec (section 4.1), for comparison with [is_valid_url]

    The spec's scope filter: same host, and the candidate's path segments
    (split on '/', empty ones dropped) extend the root's segments. *)
Definition path_segments (p : string) : list string :=
  filter (fun s => negb (String.eqb s "")) (split_on "/" p).

Fixpoint is_prefix_list (l1 l2 : list string) : bool :=
  match l1, l2 with
  | [], _ => true
  | x :: l1', y :: l2' => String.eqb x y && is_prefix_list l1' l2'
  | _ :: _, [] => false
  end.

Definition in_scope_spec (root cand : string) : bool :=
  let r := urlparse root in
  let c := urlparse cand in
  String.eqb (u_netloc c) (u_netloc r) &&
  is_prefix_list (path_segments (u_path r)) (path_segments (u_path c)).

(** The segments of a path once its '.' and '..' segments are resolved. *)
Definition normalized_segments (p : string) : list string :=
  resolve_segments (path_segments p).

(** A site for the concrete runs below. *)
Definition site_of (pages : list (string * list string)) (u : string) : fetch_result :=
  match find (fun p => String.eqb (fst p) u) pages with
  | Some (_, hrefs) => FetchResponse 200 hrefs
  | None => FetchResponse 404 []
  end.

Definition root_h : string := "http://h/files/".

(** The page [a/] links back to the root, as an index page's breadcrumb does. *)
Definition breadcrumb_site : string -> fetch_result :=
  site_of [("http://h/files/", ["a/"]); ("http://h/files/a/", ["/files/"; "y.zip"])].

(** Whether [crawl_url] treats a fetch result as a failure. *)
Definition fetch_fails (r : fetch_result) : bool :=
  match r with
  | FetchTimeout | FetchTransportError => true
  | FetchResponse status _ => raise_for_status status
  end.

(** One worker, after getting the root and crawling it with the given page. *)
Definition after_root (cfg : string) (hrefs : list string) : world :=
  mk_world (crawl_url (set_queue (init root_h cfg) []) root_h (FetchResponse 200 hrefs))
    [Idle].

(** Two workers: worker 1 gets the root; worker 0's get times out; worker 1's
    fetch of the root returns a page listing [a/]. *)
Definition two_w0 : world := start (init root_h "zip") 2.
Definition two_w1 : world :=
  mk_world (set_queue (shared two_w0) []) (upd (workers two_w0) 1 (Busy root_h)).
Definition two_w2 : world := mk_world (shared two_w1) (upd (workers two_w1) 0 Stopped).
Definition two_w3 : world :=
  mk_world (crawl_url (shared two_w2) root_h (FetchResponse 200 ["a/"]))
    (upd (workers two_w2) 1 Idle).

(** An href whose value spans two lines, with a scheme other than the page's. *)
Definition newline_href : string := "https://h/files/a" ++ newline ++ "b.zip".

(** [String.leb] as a relation, for [Sorted]. *)
Definition str_le (a b : string) : Prop := String.leb a b = true.

(** A crawler state with its error log replaced. *)
Definition with_errors (st : crawler) (e : list string) : crawler :=
  mk_crawler (base_url st) (file_types st) (visited_urls st) (zip_urls st)
    (url_queue st) (enqueued st) e.

(** The same state with [pre] logged before its own errors. *)
Definition errors_shift (pre : list string) (st : crawler) : crawler :=
  with_errors st (pre ++ errors st)%list.

(** What the collected set satisfies. *)
Definition zip_ok (st : crawler) (u : string) : Prop :=
  is_valid_url (base_url st) u = true /\
  is_target_file (file_types st) u = true /\
  should_skip_file (file_types st) u = false.

Definition zip_inv (st : crawler) : Prop :=
  (forall ext, In ext (file_types st) -> ext <> "") /\
  forall u, In u (zip_urls st) -> zip_ok st u.

(** ** test_connection.py

    [requests.get(url, timeout=10)] for each URL in turn; a
    RequestException (a timeout or transport failure) or a status other
    than 200 moves on to the next URL; the first status 200 returns True.
    The result pairs the URLs requested, in order, with the value returned. *)
Definition urls_to_test : list string :=
  ["https://myrient.erista.me/files/"; "https://myrient.erista.me/";
   "https://erista.me/"; "http://myrient.erista.me/files/";
   "https://myrient.erista.me/files"].

Fixpoint test_connection_loop (get : string -> fetch_result) (urls : list string)
  : list string * bool :=
  match urls with
  | [] => ([], false)
  | url :: rest =>
      match get url with
      | FetchResponse status _ =>
          if status =? 200 then ([url], true)
          else let '(r, b) := test_connection_loop get rest in (url :: r, b)
      | FetchTimeout | FetchTransportError =>
          let '(r, b) := test_connection_loop get rest in (url :: r, b)
      end
  end.

Definition test_connection (get : string -> fetch_result) : list string * bool :=
  test_connection_loop get urls_to_test.

(** Whether a URL answers with status 200. *)
Definition answers_200 (get : string -> fetch_result) (url : string) : bool :=
  match get url with FetchResponse status _ => status =? 200 | _ => false end.

(** The number of occurrences of a character. *)
Fixpoint count_char (c : ascii) (s : string) : nat :=
  match s with
  | EmptyString => 0
  | String d s' => (if Ascii.eqb d c then 1 else 0) + count_char c s'
  end.

(** ** Examples *)

Example urlparse_ex1 :
  urlparse "https://myrient.erista.me/files/No-Intro/a;b?q=1#f" =
  mk_parts "https" "myrient.erista.me" "/files/No-Intro/a" "b" "q=1" "f".
Proof. reflexivity. Qed.

Example is_valid_ex1 :
  map (is_valid_url "https://myrient.erista.me/files/")
    ["https://myrient.erista.me/files/"; "https://myrient.erista.me/files/No-Intro/";
     "https://myrient.erista.me/files/example.zip"; "https://myrient.erista.me/files/../";
     "https://othersite.com/files/"; "https://myrient.erista.me/"]
  = [true; true; true; true; false; false].
Proof. reflexivity. Qed.

Example urljoin_ex :
  map (urljoin "https://myrient.erista.me/files/No-Intro/")
    ["a.zip"; "sub/"; "../"; "/files/"; "../../x/"; "https://other.org/a.zip";
     "ftp://h/x.zip"; "?q"; "./b/./c/../d.zip"]
  = ["https://myrient.erista.me/files/No-Intro/a.zip";
     "https://myrient.erista.me/files/No-Intro/sub/";
     "https://myrient.erista.me/files/";
     "https://myrient.erista.me/files/";
     "https://myrient.erista.me/x/";
     "https://other.org/a.zip";
     "ftp://h/x.zip";
     "https://myrient.erista.me/files/No-Intro/?q";
     "https://myrient.erista.me/files/No-Intro/b/d.zip"].
Proof. reflexivity. Qed.

Example scenario_run :
  zip_urls (run 10 scenario_site (init "http://h/files/" "zip")) =
  ["http://h/files/x.zip"; "http://h/files/a/y.zip"].
Proof. vm_compute. reflexivity. Qed.

Example nat_to_string_ex : map nat_to_string [0; 7; 10; 305] = ["0"; "7"; "10"; "305"].
Proof. reflexivity. Qed.

Example save_results_ex :
  save_results ["http://h/files/x.zip"; "http://h/files/a/y.zip"] =
  "http://h/files/a/y.zip" ++ newline ++ "http://h/files/x.zip" ++ newline.
Proof. reflexivity. Qed.

(** ** Lemmas on the string operations *)

Lemma endswith_spec (suf s : string) :
  endswith suf s = true <-> exists p, s = p ++ suf.
Proof.
  induction s as [|c s IH]; cbn [endswith].
  - split.
    + intros H. destruct suf; [|simpl in H; discriminate]. exists "". reflexivity.
    + intros [p Hp]. destruct p; [|discriminate].
      simpl in Hp. subst. reflexivity.
  - rewrite orb_true_iff, String.eqb_eq, IH. split.
    + intros [H | [p Hp]].
      * exists "". subst. reflexivity.
      * exists (String c p). rewrite Hp. reflexivity.
    + intros [p Hp]. destruct p as [|d p].
      * left. simpl in Hp. exact Hp.
      * right. exists p. simpl in Hp. injection Hp as _ Hp. exact Hp.
Qed.

(** Two decompositions of one string: a non-empty suffix of a string ending
    in [a] ends in [a]. *)
Lemma app_last_char (p q suf : string) (a : ascii) :
  p ++ String a "" = q ++ suf -> suf <> "" -> exists r, suf = r ++ String a "".
Proof.
  revert p. induction q as [|c q IH]; intros p H Hne; simpl in H.
  - exists p. symmetry. exact H.
  - destruct p as [|d p]; simpl in H.
    + injection H as _ H. destruct q; destruct suf; try discriminate; congruence.
    + injection H as _ H. exact (IH p H Hne).
Qed.

Lemma endswith_slash_suffix (ext s : string) :
  endswith "/" s = true -> endswith ext s = true -> ext <> "" -> endswith "/" ext = true.
Proof.
  rewrite !endswith_spec. intros [p Hp] [q Hq] Hne.
  apply (app_last_char p q ext "/"); [congruence | exact Hne].
Qed.

Ltac ascii_cases c := destruct c as [[] [] [] [] [] [] [] []]; reflexivity.

Lemma lower_char_slash (c : ascii) : Ascii.eqb (lower_char c) "/" = Ascii.eqb c "/".
Proof. ascii_cases c. Qed.

Lemma lower_char_comma (c : ascii) : Ascii.eqb (lower_char c) "," = Ascii.eqb c ",".
Proof. ascii_cases c. Qed.

Lemma lower_char_idem (c : ascii) : lower_char (lower_char c) = lower_char c.
Proof. ascii_cases c. Qed.

Lemma is_py_space_lower (c : ascii) : is_py_space (lower_char c) = is_py_space c.
Proof. ascii_cases c. Qed.

Lemma lower_idem (s : string) : lower (lower s) = lower s.
Proof. induction s; simpl; [reflexivity | now rewrite lower_char_idem, IHs]. Qed.

Lemma lower_empty (s : string) : lower s = "" <-> s = "".
Proof. destruct s; simpl; split; congruence. Qed.

Lemma is_directory_lower (s : string) : is_directory (lower s) = is_directory s.
Proof.
  unfold is_directory. induction s as [|c s IH]; [reflexivity|].
  simpl. rewrite IH. f_equal.
  rewrite lower_char_slash. destruct (Ascii.eqb c "/"); [|reflexivity].
  destruct s; reflexivity.
Qed.

Lemma split_on_comma_lower (s : string) :
  split_on "," (lower s) = map lower (split_on "," s).
Proof.
  induction s as [|c s IH]; [reflexivity|].
  simpl. rewrite lower_char_comma, IH.
  destruct (Ascii.eqb c ","); [reflexivity|].
  destruct (split_on "," s); reflexivity.
Qed.

Lemma lstrip_lower (s : string) :
  lstrip_by is_py_space (lower s) = lower (lstrip_by is_py_space s).
Proof.
  induction s as [|c s IH]; [reflexivity|].
  simpl. rewrite is_py_space_lower. destruct (is_py_space c); [exact IH | reflexivity].
Qed.

Lemma rstrip_lower (s : string) :
  rstrip_by is_py_space (lower s) = lower (rstrip_by is_py_space s).
Proof.
  induction s as [|c s IH]; [reflexivity|].
  simpl. rewrite IH, is_py_space_lower.
  destruct (rstrip_by is_py_space s); simpl.
  - destruct (is_py_space c); reflexivity.
  - reflexivity.
Qed.

Lemma strip_lower (s : string) : strip (lower s) = lower (strip s).
Proof. unfold strip. now rewrite lstrip_lower, rstrip_lower. Qed.

(** A target file ends with a configured suffix; if none of the non-empty
    suffixes ends with '/', a URL ending with '/' matches none of them. *)
Lemma no_suffix_matches_directory (exts : list string) (url : string) :
  (forall ext, In ext exts -> ext <> "" /\ is_directory ext = false) ->
  is_directory url = true ->
  existsb (fun ext => endswith ext (lower url)) exts = false.
Proof.
  intros Hexts Hdir. apply not_true_iff_false. intros H.
  apply existsb_exists in H as [ext [Hin Hend]].
  destruct (Hexts ext Hin) as [Hne Hnd].
  rewrite <- is_directory_lower in Hdir.
  pose proof (endswith_slash_suffix ext (lower url) Hdir Hend Hne) as Hslash.
  unfold is_directory in Hnd. congruence.
Qed.

Lemma parse_file_types_nonempty (cfg ext : string) :
  In ext (parse_file_types cfg) -> ext <> "".
Proof.
  unfold parse_file_types. intros Hin. apply in_map_iff in Hin as [e [<- _]].
  discriminate.
Qed.

Lemma skip_extensions_not_directory (ext : string) :
  In ext skip_extensions -> ext <> "" /\ is_directory ext = false.
Proof.
  intros Hin. unfold skip_extensions in Hin.
  repeat (destruct Hin as [<- | Hin]; [split; [discriminate | reflexivity] |]).
  destruct Hin.
Qed.

(** ** Lemmas on [sorted]

    [String.leb] is a total order: total and antisymmetric in the Standard
    Library, transitive below. *)

Lemma ascii_compare_le_trans (x y z : ascii) :
  Ascii.compare x y <> Gt -> Ascii.compare y z <> Gt -> Ascii.compare x z <> Gt.
Proof.
  unfold Ascii.compare. rewrite !N.compare_le_iff. lia.
Qed.

Lemma ascii_compare_refl (x : ascii) : Ascii.compare x x = Eq.
Proof. unfold Ascii.compare. apply N.compare_refl. Qed.

Lemma string_compare_le_trans (a b c : string) :
  String.compare a b <> Gt -> String.compare b c <> Gt -> String.compare a c <> Gt.
Proof.
  revert b c. induction a as [|x a IH]; intros b c Hab Hbc.
  - destruct c; discriminate.
  - destruct b as [|y b]; [contradiction Hab; reflexivity|].
    destruct c as [|z c]; [contradiction Hbc; reflexivity|].
    cbn [String.compare] in *.
    destruct (Ascii.compare x y) eqn:Hxy; try (contradiction Hab; reflexivity);
    destruct (Ascii.compare y z) eqn:Hyz; try (contradiction Hbc; reflexivity).
    + apply Ascii.compare_eq_iff in Hxy, Hyz. subst.
      rewrite ascii_compare_refl. exact (IH b c Hab Hbc).
    + apply Ascii.compare_eq_iff in Hxy. subst. rewrite Hyz. discriminate.
    + apply Ascii.compare_eq_iff in Hyz. subst. rewrite Hxy. discriminate.
    + assert (Hxz : Ascii.compare x z <> Gt)
        by (apply (ascii_compare_le_trans x y z); congruence).
      destruct (Ascii.compare x z) eqn:E; try discriminate.
      * apply Ascii.compare_eq_iff in E. subst.
        rewrite Ascii.compare_antisym, Hyz in Hxy. discriminate.
      * contradiction.
Qed.

Lemma leb_trans (a b c : string) :
  String.leb a b = true -> String.leb b c = true -> String.leb a c = true.
Proof.
  unfold String.leb.
  destruct (String.compare a b) eqn:Hab; try discriminate;
  destruct (String.compare b c) eqn:Hbc; try discriminate; intros _ _;
  destruct (String.compare a c) eqn:Hac; try reflexivity;
  exfalso; refine (string_compare_le_trans a b c _ _ Hac); congruence.
Qed.

Lemma leb_false (a b : string) : String.leb a b = false -> String.leb b a = true.
Proof. intros H. destruct (String.leb_total a b); congruence. Qed.

Lemma insert_sorted_comm (a b : string) (l : list string) :
  insert_sorted a (insert_sorted b l) = insert_sorted b (insert_sorted a l).
Proof.
  induction l as [|y l IH]; simpl.
  - destruct (String.leb a b) eqn:Eab, (String.leb b a) eqn:Eba; try reflexivity.
    + pose proof (String.leb_antisym a b Eab Eba). subst. reflexivity.
    + apply leb_false in Eab. congruence.
  - destruct (String.leb b y) eqn:Eby, (String.leb a y) eqn:Eay; simpl;
      rewrite ?Eby, ?Eay.
    + destruct (String.leb a b) eqn:Eab, (String.leb b a) eqn:Eba; try reflexivity.
      * pose proof (String.leb_antisym a b Eab Eba). subst. reflexivity.
      * apply leb_false in Eab. congruence.
    + destruct (String.leb a b) eqn:Eab.
      * rewrite (leb_trans a b y Eab Eby) in Eay. discriminate.
      * reflexivity.
    + destruct (String.leb b a) eqn:Eba.
      * rewrite (leb_trans b a y Eba Eay) in Eby. discriminate.
      * reflexivity.
    + rewrite IH. reflexivity.
Qed.

Lemma sorted_perm_eq (l1 l2 : list string) :
  Permutation l1 l2 -> sorted l1 = sorted l2.
Proof.
  induction 1; simpl.
  - reflexivity.
  - congruence.
  - apply insert_sorted_comm.
  - congruence.
Qed.

Lemma insert_sorted_perm (x : string) (l : list string) :
  Permutation (insert_sorted x l) (x :: l).
Proof.
  induction l as [|y l IH]; simpl; [reflexivity|].
  destruct (String.leb x y); [reflexivity|].
  transitivity (y :: x :: l); [now constructor | apply perm_swap].
Qed.

Lemma sorted_perm (l : list string) : Permutation l (sorted l).
Proof.
  induction l as [|x l IH]; simpl; [reflexivity|].
  symmetry. rewrite insert_sorted_perm. now constructor.
Qed.

Lemma insert_sorted_hd (y x : string) (l : list string) :
  HdRel str_le y l -> str_le y x -> HdRel str_le y (insert_sorted x l).
Proof.
  intros Hhd Hyx. destruct l as [|z l]; simpl.
  - now constructor.
  - destruct (String.leb x z); constructor; [exact Hyx|].
    now inversion Hhd.
Qed.

Lemma insert_sorted_Sorted (x : string) (l : list string) :
  Sorted str_le l -> Sorted str_le (insert_sorted x l).
Proof.
  induction 1 as [|y l Hl IH Hhd]; simpl.
  - repeat constructor.
  - destruct (String.leb x y) eqn:Exy.
    + constructor; [now constructor | now constructor].
    + constructor; [exact IH|].
      apply insert_sorted_hd; [exact Hhd|]. unfold str_le. now apply leb_false.
Qed.

Lemma sorted_Sorted (l : list string) : Sorted str_le (sorted l).
Proof.
  induction l; simpl; [constructor | now apply insert_sorted_Sorted].
Qed.

Lemma str_app_assoc (a b c : string) : (a ++ b) ++ c = a ++ (b ++ c).
Proof. induction a; simpl; congruence. Qed.

(** [split('\n')] of text made of lines each ending with '\n'. *)
Lemma split_on_line (u rest : string) (c : ascii) :
  has_char c u = false ->
  split_on c (u ++ String c rest) = u :: split_on c rest.
Proof.
  induction u as [|d u IH]; intros H; simpl.
  - rewrite Ascii.eqb_refl. reflexivity.
  - simpl in H. apply orb_false_iff in H as [Hd Hu].
    rewrite Hd, (IH Hu). reflexivity.
Qed.

Lemma split_lines (l : list string) :
  (forall u, In u l -> has_char "010" u = false) ->
  split_on "010" (String.concat "" (map (fun url => url ++ newline) l)) = (l ++ [""])%list.
Proof.
  induction l as [|u l IH]; intros H; [reflexivity|].
  assert (Hu : has_char "010" u = false) by (apply H; now left).
  assert (Hl : forall v, In v l -> has_char "010" v = false) by (intros v Hv; apply H; now right).
  destruct l as [|v l].
  - simpl. unfold newline. rewrite (split_on_line u "" "010" Hu). reflexivity.
  - change (String.concat "" (map (fun url => url ++ newline) (u :: v :: l)))
      with ((u ++ newline) ++ String.concat "" (map (fun url => url ++ newline) (v :: l))).
    rewrite str_app_assoc. change (newline ++ ?X) with (String "010" X).
    rewrite (split_on_line u _ "010" Hu), (IH Hl). reflexivity.
Qed.

(** ** The error log does not influence the crawl *)

Lemma set_queue_shift pre st q :
  set_queue (errors_shift pre st) q = errors_shift pre (set_queue st q).
Proof. destruct st; reflexivity. Qed.

Lemma set_zip_urls_shift pre st z :
  set_zip_urls (errors_shift pre st) z = errors_shift pre (set_zip_urls st z).
Proof. destruct st; reflexivity. Qed.

Lemma log_error_shift pre st u :
  log_error (errors_shift pre st) u = errors_shift pre (log_error st u).
Proof. destruct st; unfold errors_shift, log_error, with_errors; simpl. now rewrite app_assoc. Qed.

Lemma enqueue_links_shift pre st links :
  enqueue_links (errors_shift pre st) links = errors_shift pre (enqueue_links st links).
Proof.
  unfold enqueue_links. revert st. induction links as [|l links IH]; intros st; [reflexivity|].
  simpl. rewrite <- IH. f_equal.
  destruct st; unfold enqueue_link; simpl. destruct (in_strings l visited_urls0); reflexivity.
Qed.

Lemma extract_links_shift pre st current hrefs links :
  extract_links_loop (errors_shift pre st) current hrefs links =
  let '(st', l) := extract_links_loop st current hrefs links in (errors_shift pre st', l).
Proof.
  revert st links. induction hrefs as [|h hrefs IH]; intros st links; [reflexivity|].
  cbn [extract_links_loop]. change (base_url (errors_shift pre st)) with (base_url st).
  change (file_types (errors_shift pre st)) with (file_types st).
  change (zip_urls (errors_shift pre st)) with (zip_urls st).
  rewrite ?set_zip_urls_shift.
  destruct (in_strings h ["../"; ".."]); [apply IH|].
  destruct (is_valid_url (base_url st) (urljoin current h)); [|apply IH].
  destruct (is_target_file (file_types st) (urljoin current h));
    [apply IH|].
  destruct (should_skip_file (file_types st) (urljoin current h)); [apply IH|].
  destruct (is_directory (urljoin current h)); apply IH.
Qed.

Lemma crawl_url_shift pre st u r :
  crawl_url (errors_shift pre st) u r = errors_shift pre (crawl_url st u r).
Proof.
  unfold crawl_url. destruct (is_directory u); [|reflexivity]. simpl.
  destruct r as [| |status hrefs]; try apply log_error_shift.
  destruct (raise_for_status status); [apply log_error_shift|].
  unfold extract_links. rewrite extract_links_shift.
  destruct (extract_links_loop st u hrefs []) as [st' links].
  apply enqueue_links_shift.
Qed.

Lemma run_shift fuel site pre st :
  run fuel site (errors_shift pre st) = errors_shift pre (run fuel site st).
Proof.
  revert st. induction fuel as [|fuel IH]; intros st; [reflexivity|].
  simpl. change (url_queue (errors_shift pre st)) with (url_queue st).
  destruct (url_queue st) as [|u q]; [reflexivity|].
  rewrite set_queue_shift, crawl_url_shift. apply IH.
Qed.

Lemma errors_shift_split st :
  st = errors_shift (errors st) (with_errors st []).
Proof. destruct st; unfold errors_shift, with_errors; simpl. now rewrite app_nil_r. Qed.

(** ** The collected set *)

Lemma set_add_in x y s : In y (set_add x s) -> y = x \/ In y s.
Proof.
  unfold set_add. destruct (in_strings x s); [now right|].
  intros H. apply in_app_or in H as [H | [H | []]]; [now right | now left].
Qed.

Lemma extract_links_inv st current hrefs links :
  zip_inv st ->
  let st' := fst (extract_links_loop st current hrefs links) in
  base_url st' = base_url st /\ file_types st' = file_types st /\
  visited_urls st' = visited_urls st /\ url_queue st' = url_queue st /\
  enqueued st' = enqueued st /\ zip_inv st'.
Proof.
  revert st links. induction hrefs as [|h hrefs IH]; intros st links Hinv;
    [simpl; repeat (split; [reflexivity|]); exact Hinv|].
  cbn [extract_links_loop]. destruct (in_strings h ["../"; ".."]); [now apply IH|].
  destruct (is_valid_url (base_url st) (urljoin current h)) eqn:Hv; [|now apply IH].
  destruct (is_target_file (file_types st) (urljoin current h)) eqn:Ht.
  - assert (Hinv' : zip_inv (set_zip_urls st (set_add (urljoin current h) (zip_urls st)))).
    { destruct Hinv as [Hne Hz]. split; [exact Hne|].
      intros u Hu. apply set_add_in in Hu as [-> | Hu].
      - unfold zip_ok, should_skip_file. simpl. now rewrite Hv, Ht.
      - exact (Hz u Hu). }
    destruct (IH _ links Hinv') as (H1 & H2 & H3 & H4 & H5 & H6).
    destruct st; simpl in *. repeat (split; [assumption|]). assumption.
  - destruct (should_skip_file (file_types st) (urljoin current h)); [now apply IH|].
    destruct (is_directory (urljoin current h)); now apply IH.
Qed.

Lemma enqueue_links_fields st links :
  let st' := enqueue_links st links in
  base_url st' = base_url st /\ file_types st' = file_types st /\
  zip_urls st' = zip_urls st.
Proof.
  unfold enqueue_links. revert st. induction links as [|l links IH]; intros st;
    [now repeat split|].
  simpl. destruct (IH (enqueue_link st l)) as (H1 & H2 & H3).
  rewrite H1, H2, H3. unfold enqueue_link.
  destruct (in_strings l (visited_urls st)); now repeat split.
Qed.

Lemma zip_inv_same_fields st st' :
  base_url st' = base_url st -> file_types st' = file_types st ->
  zip_urls st' = zip_urls st -> zip_inv st -> zip_inv st'.
Proof.
  intros Hb Hf Hz [Hne Hok]. unfold zip_inv, zip_ok in *.
  rewrite Hb, Hf, Hz. split; assumption.
Qed.

Lemma crawl_url_inv st u r :
  zip_inv st ->
  let st' := crawl_url st u r in
  base_url st' = base_url st /\ file_types st' = file_types st /\ zip_inv st'.
Proof.
  intros Hinv. unfold crawl_url.
  destruct (is_directory u); [|exact (conj eq_refl (conj eq_refl Hinv))].
  assert (Hlog : zip_inv (log_error st u))
    by (apply (zip_inv_same_fields st); try reflexivity; exact Hinv).
  destruct r as [| |status hrefs]; [exact (conj eq_refl (conj eq_refl Hlog)) .. |].
  destruct (raise_for_status status); [exact (conj eq_refl (conj eq_refl Hlog))|].
  unfold extract_links.
  destruct (extract_links_inv st u hrefs [] Hinv) as (H1 & H2 & _ & _ & _ & H6).
  destruct (extract_links_loop st u hrefs []) as [st' links]. simpl in *.
  destruct (enqueue_links_fields st' links) as (E1 & E2 & E3).
  split; [congruence|]. split; [congruence|].
  apply (zip_inv_same_fields st'); assumption.
Qed.

Lemma reachable_inv w :
  reachable w ->
  (exists base cfg, base_url (shared w) = rstrip_slash base ++ "/" /\
                    file_types (shared w) = parse_file_types cfg) /\
  zip_inv (shared w).
Proof.
  induction 1 as [base ft n | w i w' Hr [[base [cfg [Hb Hf]]] Hinv] Hstep].
  - split; [now exists base, ft|]. split.
    + apply parse_file_types_nonempty.
    + intros u [].
  - inversion Hstep; subst; simpl.
    + split; [exists base, cfg; destruct (shared w); now split|].
      apply (zip_inv_same_fields (shared w)); try (destruct (shared w); reflexivity).
      exact Hinv.
    + split; [now exists base, cfg|]. exact Hinv.
    + destruct (crawl_url_inv (shared w) u r Hinv) as (E1 & E2 & E3).
      split; [exists base, cfg; now rewrite E1, E2|]. exact E3.
Qed.

Lemma nth_error_upd_same {A} (l : list A) (i : nat) (x y : A) :
  nth_error l i = Some x -> nth_error (upd l i y) i = Some y.
Proof.
  revert i. induction l as [|z l IH]; intros [|i] H; simpl in *; try discriminate.
  - reflexivity.
  - exact (IH i H).
Qed.

Lemma reachable_after_root (cfg : string) (hrefs : list string) :
  reachable (after_root cfg hrefs).
Proof.
  set (w0 := start (init root_h cfg) 1).
  set (w1 := mk_world (set_queue (shared w0) []) (upd (workers w0) 0 (Busy root_h))).
  apply (reach_step w1 0).
  - apply (reach_step w0 0); [constructor|].
    apply step_get with (q := []); reflexivity.
  - apply (step_crawl w1 0 root_h (FetchResponse 200 hrefs)). reflexivity.
Qed.

(** * The claims *)

(** C1 (counterexample): a worker stops while another is mid-fetch.  With two
    workers, worker 1 gets the root; worker 0's get then times out on the
    empty queue and worker 0 stops although one worker is in flight; the
    fetch of worker 1 then puts [a/] on the queue. *)
Lemma C1_stops_while_peer_fetches :
  reachable two_w1 /\ nth_error (workers two_w1) 0 = Some Idle /\
  in_flight two_w1 = 1 /\ url_queue (shared two_w1) = [] /\
  worker_step two_w1 0 two_w2 /\ nth_error (workers two_w2) 0 = Some Stopped /\
  worker_step two_w2 1 two_w3 /\ url_queue (shared two_w3) = ["http://h/files/a/"].
Proof.
  split; [|split; [reflexivity|split; [reflexivity|split; [reflexivity|]]]].
  - apply (reach_step two_w0 1); [constructor|].
    apply step_get with (q := []); reflexivity.
  - split; [apply step_timeout; reflexivity|].
    split; [reflexivity|].
    split; [apply step_crawl; reflexivity|].
    vm_compute. reflexivity.
Qed.

(** C1 (amended): an idle worker stops exactly when its get finds the queue
    empty; the stop is enabled whatever the number of workers mid-fetch. *)
Theorem C1_worker_stops_iff_queue_empty (w : world) (i : nat)
  (Hidle : nth_error (workers w) i = Some Idle) :
  (forall w', worker_step w i w' -> nth_error (workers w') i = Some Stopped ->
              url_queue (shared w) = []) /\
  (url_queue (shared w) = [] ->
   worker_step w i (mk_world (shared w) (upd (workers w) i Stopped))).
Proof.
  split.
  - intros w' Hstep Hstop. inversion Hstep as [w0 i0 u q Hi Hq | w0 i0 Hi Hq | w0 i0 u r Hi];
      subst; simpl in Hstop.
    + rewrite (nth_error_upd_same _ _ _ _ Hi) in Hstop. discriminate.
    + exact Hq.
    + congruence.
  - intros Hq. apply step_timeout; assumption.
Qed.

Lemma C1_witness :
  in_flight two_w1 = 1 /\
  worker_step two_w1 0 (mk_world (shared two_w1) (upd (workers two_w1) 0 Stopped)).
Proof.
  split; [reflexivity|].
  apply (proj2 (C1_worker_stops_iff_queue_empty two_w1 0 eq_refl)). reflexivity.
Defined.

(** C2 (code_bug): [__init__] puts the root on the queue without adding it to
    [visited_urls], so a page linking back to the root puts it on the queue a
    second time. *)
Theorem C2_root_enqueued_twice :
  ~ In root_h (visited_urls (init root_h "zip")) /\
  enqueued (init root_h "zip") = [root_h] /\
  enqueued (run 10 breadcrumb_site (init root_h "zip")) =
    [root_h; "http://h/files/a/"; root_h].
Proof.
  split; [intros []|]. split; [reflexivity|]. vm_compute. reflexivity.
Qed.

(** C3 (code_bug): the scope filter compares paths as strings, so a sibling
    directory whose name extends the root's is in scope; the spec's segment
    comparison rejects it.  A link to it is collected. *)
Theorem C3_sibling_prefix_in_scope :
  is_valid_url root_h "http://h/files2/x" = true /\
  in_scope_spec root_h "http://h/files2/x" = false /\
  zip_urls (fst (extract_links (set_queue (init root_h "zip") []) ["/files2/a.zip"] root_h))
    = ["http://h/files2/a.zip"].
Proof. vm_compute. repeat split. Qed.

(** C4 (code_bug): the scope filter counts the raw segments, so
    [http://h/files/../], which resolves above the root, is in scope; an
    absolute href reaches it unresolved and it is crawled as a directory. *)
Theorem C4_dotdot_in_scope :
  is_valid_url root_h "http://h/files/../" = true /\
  normalized_segments (u_path (urlparse "http://h/files/../")) = [] /\
  path_segments (u_path (urlparse root_h)) = ["files"] /\
  snd (extract_links (set_queue (init root_h "zip") []) ["http://h/files/../"] root_h)
    = ["http://h/files/../"].
Proof. vm_compute. repeat split. Qed.

(** C5 (counterexample): with the entry [zip/] the suffix [.zip/] makes a URL
    ending in '/' a target file: [game.zip/] is collected, not crawled. *)
Lemma C5_slash_entry_collects_directory :
  is_directory "http://h/files/game.zip/" = true /\
  is_target_file (parse_file_types "zip/") "http://h/files/game.zip/" = true /\
  extract_links (set_queue (init root_h "zip/") []) ["game.zip/"] root_h =
    (set_zip_urls (set_queue (init root_h "zip/") []) ["http://h/files/game.zip/"], []).
Proof. vm_compute. repeat split. Qed.

(** C5 (amended): when no configured suffix ends with '/', a URL ending with
    '/' is neither a target file nor skipped, and [extract_links] appends it
    to the directories to crawl. *)
Theorem C5_trailing_slash_is_directory (cfg url : string)
  (Hcfg : forall ext, In ext (parse_file_types cfg) -> is_directory ext = false)
  (Hdir : is_directory url = true) :
  is_target_file (parse_file_types cfg) url = false /\
  should_skip_file (parse_file_types cfg) url = false /\
  (forall st current href rest links,
     file_types st = parse_file_types cfg ->
     in_strings href ["../"; ".."] = false ->
     urljoin current href = url ->
     is_valid_url (base_url st) url = true ->
     extract_links_loop st current (href :: rest) links =
     extract_links_loop st current rest (links ++ [url])%list).
Proof.
  assert (Ht : is_target_file (parse_file_types cfg) url = false).
  { apply no_suffix_matches_directory; [|exact Hdir].
    intros ext Hin. split; [exact (parse_file_types_nonempty cfg ext Hin) | exact (Hcfg ext Hin)]. }
  assert (Hs : should_skip_file (parse_file_types cfg) url = false).
  { unfold should_skip_file. rewrite Ht.
    apply no_suffix_matches_directory; [exact skip_extensions_not_directory | exact Hdir]. }
  split; [exact Ht|]. split; [exact Hs|].
  intros st current href rest links Hft Hhref Hjoin Hvalid.
  cbn [extract_links_loop]. rewrite Hhref, Hjoin, Hvalid, Hft, Ht, Hs, Hdir.
  reflexivity.
Qed.

Lemma C5_witness :
  is_target_file (parse_file_types "zip") "http://h/files/game.zip/" = false /\
  should_skip_file (parse_file_types "zip") "http://h/files/game.zip/" = false.
Proof.
  destruct (C5_trailing_slash_is_directory "zip" "http://h/files/game.zip/")
    as (H1 & H2 & _).
  - intros ext [<- | []]. reflexivity.
  - reflexivity.
  - exact (conj H1 H2).
Defined.

(** C6 (counterexample): a leading dot is kept: the entry [.zip] gives the
    suffix [..zip], which [a.zip] does not end with, while [zip] matches it. *)
Lemma C6_leading_dot_kept :
  parse_file_types ".zip" = ["..zip"] /\
  is_target_file (parse_file_types "zip") "http://h/files/a.zip" = true /\
  is_target_file (parse_file_types ".zip") "http://h/files/a.zip" = false.
Proof. vm_compute. repeat split. Qed.

(** C6 (amended): a URL is a target iff its lowercased form ends with '.'
    followed by some entry of the comma-separated configuration, stripped of
    whitespace and lowercased (a leading dot is not removed); the
    configuration and the URL are both matched case-insensitively. *)
Theorem C6_file_types_matching (cfg url : string) :
  (is_target_file (parse_file_types cfg) url = true <->
   exists entry p, In entry (split_on "," cfg) /\ lower url = p ++ "." ++ lower (strip entry)) /\
  parse_file_types (lower cfg) = parse_file_types cfg /\
  is_target_file (parse_file_types cfg) (lower url) = is_target_file (parse_file_types cfg) url.
Proof.
  split; [|split].
  - unfold is_target_file, parse_file_types. rewrite existsb_exists. split.
    + intros [ext [Hin Hend]]. apply in_map_iff in Hin as [entry [<- Hin]].
      apply endswith_spec in Hend as [p Hp]. exists entry, p. split; assumption.
    + intros [entry [p [Hin Hp]]]. exists ("." ++ lower (strip entry)). split.
      * apply in_map_iff. exists entry. split; [reflexivity | exact Hin].
      * apply endswith_spec. exists p. exact Hp.
  - unfold parse_file_types. rewrite split_on_comma_lower, map_map.
    apply map_ext. intros entry. now rewrite strip_lower, lower_idem.
  - unfold is_target_file. now rewrite lower_idem.
Qed.

(** C7 (counterexample): a final status outside 400..599 is no failure for
    [raise_for_status]: the page of a 300 response is processed, its target
    collected and its directory queued, and nothing is logged as an error. *)
Lemma C7_status_300_processed :
  raise_for_status 300 = false /\
  zip_urls (crawl_url (set_queue (init root_h "zip") []) root_h (FetchResponse 300 ["x.zip"; "b/"]))
    = ["http://h/files/x.zip"] /\
  url_queue (crawl_url (set_queue (init root_h "zip") []) root_h (FetchResponse 300 ["x.zip"; "b/"]))
    = ["http://h/files/b/"] /\
  errors (crawl_url (set_queue (init root_h "zip") []) root_h (FetchResponse 300 ["x.zip"; "b/"]))
    = [].
Proof. vm_compute. repeat split. Qed.

(** C7 (amended): a fetch of a directory that times out, fails in transport
    or ends with a status in 400..599 only logs the URL as an error: the
    visited set, the collected set and the queue are unchanged and the worker
    goes back to its get.  The crawl then runs exactly as the crawl of the
    remaining queue, the logged URL apart; and a URL in the visited set is
    never put on the queue again. *)
Theorem C7_fetch_failure_isolated (st : crawler) (u : string) (r : fetch_result)
  (Hdir : is_directory u = true) (Hfail : fetch_fails r = true) :
  crawl_url st u r = log_error st u /\
  (forall w i, shared w = st -> nth_error (workers w) i = Some (Busy u) ->
     worker_step w i (mk_world (log_error st u) (upd (workers w) i Idle))) /\
  (forall fuel site q, site u = r ->
     run (S fuel) site (set_queue st (u :: q)) =
       errors_shift (errors st ++ [u]) (run fuel site (set_queue (with_errors st []) q)) /\
     run fuel site (set_queue st q) =
       errors_shift (errors st) (run fuel site (set_queue (with_errors st []) q))) /\
  (In u (visited_urls st) -> forall links,
     count_occ string_dec (enqueued (enqueue_links st links)) u =
     count_occ string_dec (enqueued st) u).
Proof.
  assert (Hcrawl : forall s, crawl_url s u r = log_error s u).
  { intros s. unfold crawl_url. rewrite Hdir. simpl.
    destruct r as [| |status hrefs]; [reflexivity | reflexivity |].
    simpl in Hfail. now rewrite Hfail. }
  split; [apply Hcrawl|]. split.
  - intros w i Hw Hi. rewrite <- Hw, <- Hcrawl. now apply step_crawl.
  - split.
    + intros fuel site q Hsite.
      change (run (S fuel) site (set_queue st (u :: q)))
        with (run fuel site (crawl_url (set_queue (set_queue st (u :: q)) q) u (site u))).
      rewrite Hsite, Hcrawl.
      split.
      * replace (log_error (set_queue (set_queue st (u :: q)) q) u)
          with (errors_shift (errors st ++ [u]) (set_queue (with_errors st []) q))
          by (destruct st; unfold errors_shift, log_error, with_errors, set_queue; simpl;
              now rewrite app_nil_r).
        apply run_shift.
      * replace (set_queue st q) with (errors_shift (errors st) (set_queue (with_errors st []) q))
          by (destruct st; unfold errors_shift, with_errors, set_queue; simpl;
              now rewrite app_nil_r).
        apply run_shift.
    + intros Hin links. unfold enqueue_links. revert st Hin.
      induction links as [|l links IH]; intros st Hin; [reflexivity|].
      simpl. unfold enqueue_link at 2.
      destruct (in_strings l (visited_urls st)) eqn:Hl; [now apply IH|].
      rewrite IH.
      * simpl. rewrite count_occ_app. simpl.
        destruct (string_dec l u) as [<- | Hne].
        -- exfalso. unfold in_strings in Hl.
           assert (Hex : existsb (String.eqb l) (visited_urls st) = true)
             by (apply existsb_exists; exists l; split; [exact Hin | apply String.eqb_refl]).
           congruence.
        -- lia.
      * simpl. unfold set_add. rewrite Hl. apply in_or_app. now left.
Qed.

Lemma C7_witness :
  crawl_url (init root_h "zip") "http://h/files/a/" FetchTimeout =
  log_error (init root_h "zip") "http://h/files/a/".
Proof.
  exact (proj1 (C7_fetch_failure_isolated (init root_h "zip") "http://h/files/a/"
                  FetchTimeout eq_refl eq_refl)).
Defined.

(** C8 (counterexample): an href of another scheme is returned unchanged by
    [urljoin], line break included, while [urlparse] drops the line break for
    the scope test; the collected URL spans two lines of the output file. *)
Lemma C8_url_with_line_break :
  zip_urls (run 1 (site_of [(root_h, [newline_href])]) (init root_h "zip")) = [newline_href] /\
  split_on "010" (save_results (zip_urls (run 1 (site_of [(root_h, [newline_href])])
                                             (init root_h "zip"))))
    = ["https://h/files/a"; "b.zip"; ""].
Proof. vm_compute. split; reflexivity. Qed.

(** C8 (amended): the output is the collected URLs in ascending order, each
    followed by '\n', with nothing else; when no URL contains a line break,
    its lines are exactly these URLs; and it depends only on the set
    collected, not on the order in which the URLs were added. *)
Theorem C8_output_sorted_lines (z : list string) :
  save_results z = String.concat "" (map (fun url => url ++ newline) (sorted z)) /\
  Sorted str_le (sorted z) /\ Permutation z (sorted z) /\
  ((forall u, In u z -> has_char "010" u = false) ->
   split_on "010" (save_results z) = (sorted z ++ [""])%list) /\
  (forall z', NoDup z -> NoDup z' -> (forall u, In u z <-> In u z') ->
   save_results z' = save_results z).
Proof.
  split; [reflexivity|]. split; [apply sorted_Sorted|]. split; [apply sorted_perm|].
  split.
  - intros H. apply split_lines. intros u Hu. apply H.
    apply (Permutation_in u (Permutation_sym (sorted_perm z)) Hu).
  - intros z' Hz Hz' Hsame. unfold save_results.
    rewrite (sorted_perm_eq z z' (NoDup_Permutation Hz Hz' Hsame)). reflexivity.
Qed.

Lemma C8_witness :
  split_on "010" (save_results ["http://h/files/x.zip"; "http://h/files/a/y.zip"]) =
    ["http://h/files/a/y.zip"; "http://h/files/x.zip"; ""] /\
  save_results ["http://h/files/a/y.zip"; "http://h/files/x.zip"] =
    save_results ["http://h/files/x.zip"; "http://h/files/a/y.zip"].
Proof.
  destruct (C8_output_sorted_lines ["http://h/files/x.zip"; "http://h/files/a/y.zip"])
    as (_ & _ & _ & Hlines & Hsame).
  split.
  - rewrite Hlines; [reflexivity|].
    intros u [<- | [<- | []]]; reflexivity.
  - apply Hsame.
    + repeat constructor; simpl; intuition discriminate.
    + repeat constructor; simpl; intuition discriminate.
    + intros u; simpl; tauto.
Defined.

(** C9 (counterexample): on a KeyboardInterrupt [main] prints only that the
    crawl was interrupted: neither the count nor the output path. *)
Lemma C9_interrupt_prints_no_summary :
  main_report Interrupted 2 "myrient_zip_links.txt" =
    [newline ++ "Crawling interrupted by user"] /\
  String.index 0 "myrient_zip_links.txt" (newline ++ "Crawling interrupted by user") = None /\
  String.index 0 "Found" (newline ++ "Crawling interrupted by user") = None.
Proof. vm_compute. repeat split. Qed.

(** C9 (amended): [main] prints the count of target files and the output
    path exactly when the crawl and the save both complete; on an interrupt
    it prints "Crawling interrupted by user", on another exception
    "Crawling failed: " and the error. *)
Theorem C9_summary_iff_completed (e : run_end) (found : nat) (output : string) :
  ((In ("Found " ++ nat_to_string found ++ " target files") (main_report e found output) /\
    In ("Results saved to: " ++ output) (main_report e found output)) <-> e = Completed) /\
  main_report Interrupted found output = [newline ++ "Crawling interrupted by user"] /\
  (forall msg, main_report (Failed msg) found output = [newline ++ "Crawling failed: " ++ msg]).
Proof.
  split; [|split; reflexivity].
  split.
  - intros [_ H]. destruct e as [| |msg]; [reflexivity| |];
      simpl in H; destruct H as [H | []]; discriminate.
  - intros ->. simpl. split; [right; left | right; right; left]; reflexivity.
Qed.

(** C10 (counterexample): with the entry [zip/], a directory URL enters the
    collected set of a reachable state. *)
Lemma C10_directory_collected :
  reachable (after_root "zip/" ["game.zip/"]) /\
  zip_urls (shared (after_root "zip/" ["game.zip/"])) = ["http://h/files/game.zip/"] /\
  is_directory "http://h/files/game.zip/" = true.
Proof.
  split; [apply reachable_after_root|]. vm_compute. split; reflexivity.
Qed.

(** C10 (amended): in every reachable state, with the base URL and the
    suffixes of the configuration, every collected URL is in scope, ends
    (lowercased) with a configured suffix and is not skipped by the
    denylist; and it does not end with '/' when no configured suffix does. *)
Theorem C10_collected_are_scoped_targets (w : world) (Hw : reachable w) :
  (exists base cfg, base_url (shared w) = rstrip_slash base ++ "/" /\
                    file_types (shared w) = parse_file_types cfg) /\
  forall u, In u (zip_urls (shared w)) ->
    is_valid_url (base_url (shared w)) u = true /\
    is_target_file (file_types (shared w)) u = true /\
    should_skip_file (file_types (shared w)) u = false /\
    ((forall ext, In ext (file_types (shared w)) -> is_directory ext = false) ->
     is_directory u = false).
Proof.
  destruct (reachable_inv w Hw) as [Hcfg [Hne Hz]].
  split; [exact Hcfg|].
  intros u Hu. destruct (Hz u Hu) as (Hv & Ht & Hs).
  split; [exact Hv|]. split; [exact Ht|]. split; [exact Hs|].
  intros Hnd. destruct (is_directory u) eqn:Hd; [|reflexivity].
  exfalso.
  assert (Hno : is_target_file (file_types (shared w)) u = false).
  { apply no_suffix_matches_directory; [|exact Hd].
    intros ext Hin. split; [exact (Hne ext Hin) | exact (Hnd ext Hin)]. }
  congruence.
Qed.

Lemma C10_witness :
  is_valid_url (base_url (shared (after_root "zip" ["x.zip"]))) "http://h/files/x.zip" = true /\
  is_target_file (file_types (shared (after_root "zip" ["x.zip"]))) "http://h/files/x.zip" = true /\
  is_directory "http://h/files/x.zip" = false.
Proof.
  destruct (C10_collected_are_scoped_targets (after_root "zip" ["x.zip"])
              (reachable_after_root "zip" ["x.zip"])) as [_ Hz].
  destruct (Hz "http://h/files/x.zip") as (Hv & Ht & _ & Hd).
  - vm_compute. now left.
  - split; [exact Hv|]. split; [exact Ht|].
    apply Hd. intros ext Hin. vm_compute in Hin. destruct Hin as [<- | []]. reflexivity.
Defined.

(** * Further properties of the code *)

(** ** Helpers *)


Lemma rstrip_by_all (p : ascii -> bool) (t : string) :
  forall_chars p t = true -> rstrip_by p t = "".
Proof.
  induction t as [|c t IH]; [reflexivity|].
  simpl. intros H. apply andb_prop in H as [Hc Ht].
  rewrite (IH Ht), Hc. reflexivity.
Qed.

Lemma rstrip_by_app_all (p : ascii -> bool) (s t : string) :
  forall_chars p t = true -> rstrip_by p (s ++ t) = rstrip_by p s.
Proof.
  intros Ht. induction s as [|c s IH]; [exact (rstrip_by_all p t Ht)|].
  simpl. rewrite IH. reflexivity.
Qed.

Lemma rstrip_by_idem (p : ascii -> bool) (s : string) :
  rstrip_by p (rstrip_by p s) = rstrip_by p s.
Proof.
  induction s as [|c s IH]; [reflexivity|].
  simpl. destruct (rstrip_by p s) as [|d r] eqn:E.
  - destruct (p c) eqn:Hc; simpl; [reflexivity|]. now rewrite Hc.
  - change (rstrip_by p (String c (String d r)))
      with (match rstrip_by p (String d r) with
            | EmptyString => if p c then EmptyString else String c EmptyString
            | r' => String c r' end).
    rewrite IH. reflexivity.
Qed.

Lemma lower_app (a b : string) : lower (a ++ b) = lower a ++ lower b.
Proof. induction a as [|c a IH]; simpl; [reflexivity|now rewrite IH]. Qed.

Lemma split_on_nonempty (c : ascii) (s : string) : split_on c s <> [].
Proof.
  destruct s as [|d s]; simpl; [discriminate|].
  destruct (Ascii.eqb d c); [discriminate|].
  destruct (split_on c s); discriminate.
Qed.

Lemma split_on_length (c : ascii) (s : string) :
  length (split_on c s) = S (count_char c s).
Proof.
  induction s as [|d s IH]; [reflexivity|].
  cbn [split_on count_char]. destruct (Ascii.eqb d c).
  - simpl. now rewrite IH.
  - pose proof (split_on_nonempty c s) as Hne.
    destruct (split_on c s) as [|p ps]; [now destruct Hne|]. simpl in *. exact IH.
Qed.

Lemma in_strings_spec (x : string) (l : list string) :
  in_strings x l = true <-> In x l.
Proof.
  unfold in_strings. rewrite existsb_exists. split.
  - intros [y [Hy E]]. apply String.eqb_eq in E. now subst.
  - intros H. exists x. split; [exact H|apply String.eqb_refl].
Qed.

(** ** The scope filter and the classifiers *)

(** X1: [should_skip_file] never skips a URL ending in '/', whatever the
    configured file types. *)
Theorem X1_directory_never_skipped (ft : list string) (url : string)
  (Hd : is_directory url = true) : should_skip_file ft url = false.
Proof.
  unfold should_skip_file. destruct (is_target_file ft url); [reflexivity|].
  apply no_suffix_matches_directory; [exact skip_extensions_not_directory|exact Hd].
Qed.

Lemma X1_witness :
  is_directory "http://h/files/movies.mp4/" = true /\
  should_skip_file (parse_file_types "zip") "http://h/files/movies.mp4/" = false.
Proof.
  split; [reflexivity|]. apply X1_directory_never_skipped. reflexivity.
Defined.


(** X3: when the path of the base URL is empty or only slashes, the scope
    filter reduces to comparing network locations: every URL on the same
    host is in scope, whatever its path. *)
Theorem X3_host_root_scope (b u : string)
  (Hroot : rstrip_slash (u_path (urlparse b)) = "") :
  is_valid_url b u = String.eqb (u_netloc (urlparse u)) (u_netloc (urlparse b)).
Proof.
  unfold is_valid_url. rewrite Hroot.
  destruct (String.eqb (u_netloc (urlparse u)) (u_netloc (urlparse b))); [|reflexivity].
  unfold startswith. simpl. destruct (rstrip_slash (u_path (urlparse u))); reflexivity.
Qed.

Lemma X3_witness :
  rstrip_slash (u_path (urlparse "https://h/")) = "" /\
  is_valid_url "https://h/" "https://h/other/x.zip" =
    String.eqb (u_netloc (urlparse "https://h/other/x.zip")) (u_netloc (urlparse "https://h/")).
Proof.
  split; [vm_compute; reflexivity|].
  apply X3_host_root_scope. vm_compute. reflexivity.
Defined.

(** X4: [__init__] normalises the base URL to end with exactly one '/', and
    the normalisation is idempotent: building a crawler from the normalised
    base gives the same base. *)
Theorem X4_base_normalised (b : string) (cfg : string) :
  let b' := base_url (init b cfg) in
  is_directory b' = true /\ base_url (init b' cfg) = b' /\
  rstrip_slash b' = rstrip_slash b.
Proof.
  simpl. assert (Hr : rstrip_slash (rstrip_slash b ++ "/") = rstrip_slash b).
  { unfold rstrip_slash. rewrite rstrip_by_app_all by reflexivity.
    apply rstrip_by_idem. }
  split; [|split; [now rewrite Hr | exact Hr]].
  unfold is_directory. apply endswith_spec. now exists (rstrip_slash b).
Qed.

(** X5: [file_types] has one entry per comma-separated piece of the
    configuration, empty pieces included: one more than the number of
    commas. *)
Theorem X5_file_types_count (cfg : string) :
  length (parse_file_types cfg) = S (count_char "," cfg).
Proof. unfold parse_file_types. rewrite length_map. apply split_on_length. Qed.

(** X6: a blank piece of the configuration (an empty or whitespace-only
    entry, as in "zip," or "zip, ,7z") becomes the suffix ".", so every URL
    ending in '.' counts as a target file. *)
Theorem X6_blank_entry_matches_dot (cfg e url : string)
  (Hin : In e (split_on "," cfg)) (Hblank : strip e = "")
  (Hdot : endswith "." url = true) :
  is_target_file (parse_file_types cfg) url = true.
Proof.
  unfold is_target_file. apply existsb_exists. exists ".". split.
  - unfold parse_file_types. apply in_map_iff. exists e. now rewrite Hblank.
  - apply endswith_spec in Hdot as [p ->]. apply endswith_spec.
    exists (lower p). rewrite lower_app. reflexivity.
Qed.

Lemma X6_witness :
  In " " (split_on "," "zip, ") /\ strip " " = "" /\
  endswith "." "http://h/files/readme." = true /\
  is_target_file (parse_file_types "zip, ") "http://h/files/readme." = true.
Proof.
  split; [simpl; auto|]. split; [reflexivity|]. split; [reflexivity|].
  apply (X6_blank_entry_matches_dot "zip, " " "); [simpl; auto|reflexivity|reflexivity].
Defined.

(** ** extract_links and the enqueue loop of crawl_url *)

Lemma set_zip_urls_twice st z1 z2 :
  set_zip_urls (set_zip_urls st z1) z2 = set_zip_urls st z2.
Proof. destruct st; reflexivity. Qed.

Lemma extract_links_loop_links st cur hrefs links :
  exists new, snd (extract_links_loop st cur hrefs links) = (links ++ new)%list /\
  forall l, In l new ->
    (exists h, In h hrefs /\ in_strings h ["../"; ".."] = false /\ l = urljoin cur h) /\
    is_valid_url (base_url st) l = true /\ is_target_file (file_types st) l = false /\
    is_directory l = true.
Proof.
  revert st links. induction hrefs as [|h hrefs IH]; intros st links.
  - exists []. split; [now rewrite app_nil_r|]. intros l [].
  - cbn [extract_links_loop].
    assert (Hweak : forall st' links',
               base_url st' = base_url st -> file_types st' = file_types st ->
               exists new, snd (extract_links_loop st' cur hrefs links') = (links' ++ new)%list /\
               forall l, In l new ->
                 (exists h', In h' (h :: hrefs) /\ in_strings h' ["../"; ".."] = false /\
                             l = urljoin cur h') /\
                 is_valid_url (base_url st) l = true /\
                 is_target_file (file_types st) l = false /\ is_directory l = true).
    { intros st' links' Hb Hf. destruct (IH st' links') as [new [E Hnew]].
      exists new. split; [exact E|]. intros l Hl.
      destruct (Hnew l Hl) as [[h' [Hh' Hx]] Hrest]. rewrite <- Hb, <- Hf.
      split; [exists h'; split; [now right|exact Hx]|exact Hrest]. }
    destruct (in_strings h ["../"; ".."]) eqn:Hdot; [now apply Hweak|].
    destruct (is_valid_url (base_url st) (urljoin cur h)) eqn:Hv; [|now apply Hweak].
    destruct (is_target_file (file_types st) (urljoin cur h)) eqn:Ht;
      [apply Hweak; destruct st; reflexivity|].
    destruct (should_skip_file (file_types st) (urljoin cur h)); [now apply Hweak|].
    destruct (is_directory (urljoin cur h)) eqn:Hd; [|now apply Hweak].
    destruct (Hweak st (links ++ [urljoin cur h])%list eq_refl eq_refl) as [new [E Hnew]].
    exists (urljoin cur h :: new). split; [now rewrite E, <- app_assoc|].
    intros l [<- | Hl]; [|exact (Hnew l Hl)].
    split; [exists h; split; [now left|split; [exact Hdot|reflexivity]]|].
    split; [exact Hv|split; [exact Ht|exact Hd]].
Qed.

Lemma extract_links_loop_state st cur hrefs links :
  let st' := fst (extract_links_loop st cur hrefs links) in
  st' = set_zip_urls st (zip_urls st') /\
  exists new, zip_urls st' = (zip_urls st ++ new)%list /\ NoDup new /\
  forall u, In u new ->
    (exists h, In h hrefs /\ u = urljoin cur h) /\
    is_valid_url (base_url st) u = true /\ is_target_file (file_types st) u = true /\
    ~ In u (zip_urls st).
Proof.
  revert st links. induction hrefs as [|h hrefs IH]; intros st links.
  - simpl. split; [destruct st; reflexivity|].
    exists []. split; [now rewrite app_nil_r|]. split; [constructor|]. intros u [].
  - cbn [extract_links_loop].
    assert (Hsame : forall links',
               let st' := fst (extract_links_loop st cur hrefs links') in
               st' = set_zip_urls st (zip_urls st') /\
               exists new, zip_urls st' = (zip_urls st ++ new)%list /\ NoDup new /\
               forall u, In u new ->
                 (exists h', In h' (h :: hrefs) /\ u = urljoin cur h') /\
                 is_valid_url (base_url st) u = true /\
                 is_target_file (file_types st) u = true /\ ~ In u (zip_urls st)).
    { intros links'. destruct (IH st links') as [E [new [Z [Nd Hnew]]]].
      split; [exact E|]. exists new. split; [exact Z|]. split; [exact Nd|].
      intros u Hu. destruct (Hnew u Hu) as [[h' [Hh' Hx]] Hrest].
      split; [exists h'; split; [now right|exact Hx]|exact Hrest]. }
    destruct (in_strings h ["../"; ".."]); [apply Hsame|].
    destruct (is_valid_url (base_url st) (urljoin cur h)) eqn:Hv; [|apply Hsame].
    destruct (is_target_file (file_types st) (urljoin cur h)) eqn:Ht.
    + set (a := urljoin cur h).
      set (st1 := set_zip_urls st (set_add a (zip_urls st))).
      destruct (IH st1 links) as [E [new [Z [Nd Hnew]]]].
      split; [rewrite E at 1; apply set_zip_urls_twice|].
      unfold set_add in st1. destruct (in_strings a (zip_urls st)) eqn:Hin.
      * exists new. split; [exact Z|]. split; [exact Nd|].
        intros u Hu. destruct (Hnew u Hu) as [[h' [Hh' Hx]] Hrest].
        split; [exists h'; split; [now right|exact Hx]|exact Hrest].
      * exists (a :: new). split; [rewrite Z; simpl; now rewrite <- app_assoc|].
        assert (Hfresh : forall u, In u new -> u <> a /\ ~ In u (zip_urls st)).
        { intros u Hu. destruct (Hnew u Hu) as (_ & _ & _ & Hn). simpl in Hn.
          split; intros Hc; apply Hn; apply in_or_app; [right; now left|now left]. }
        split; [constructor; [intros Ha; now destruct (Hfresh a Ha)|exact Nd]|].
        intros u [<- | Hu].
        -- split; [exists h; split; [now left|reflexivity]|].
           split; [exact Hv|split; [exact Ht|]].
           intros Hc. apply in_strings_spec in Hc. congruence.
        -- destruct (Hnew u Hu) as [[h' [Hh' Hx]] [Hv' [Ht' _]]].
           split; [exists h'; split; [now right|exact Hx]|].
           split; [exact Hv'|split; [exact Ht'|exact (proj2 (Hfresh u Hu))]].
    + destruct (should_skip_file (file_types st) (urljoin cur h)); [apply Hsame|].
      destruct (is_directory (urljoin cur h)); apply Hsame.
Qed.

(** X7: every link [extract_links] returns for crawling is the join of the
    page URL with one of the page's hrefs other than "../" and "..", is in
    scope, ends with '/', and is not a target file. *)
Theorem X7_extract_links_returns_scoped_dirs (st : crawler) (hrefs : list string)
  (cur l : string) (Hl : In l (snd (extract_links st hrefs cur))) :
  (exists h, In h hrefs /\ h <> "../" /\ h <> ".." /\ l = urljoin cur h) /\
  is_valid_url (base_url st) l = true /\ is_directory l = true /\
  is_target_file (file_types st) l = false.
Proof.
  unfold extract_links in Hl.
  destruct (extract_links_loop_links st cur hrefs []) as [new [E Hnew]].
  rewrite E in Hl. destruct (Hnew l Hl) as [[h [Hh [Hx ->]]] [Hv [Ht Hd]]].
  split; [|split; [exact Hv|split; [exact Hd|exact Ht]]].
  exists h. split; [exact Hh|].
  split; [intros ->; discriminate Hx|]. split; [intros ->; discriminate Hx|reflexivity].
Qed.

Lemma X7_witness :
  In "http://h/files/a/" (snd (extract_links (init root_h "zip") ["a/"; "x.zip"] root_h)) /\
  ((exists h, In h ["a/"; "x.zip"] /\ h <> "../" /\ h <> ".." /\
              "http://h/files/a/" = urljoin root_h h) /\
   is_valid_url (base_url (init root_h "zip")) "http://h/files/a/" = true /\
   is_directory "http://h/files/a/" = true /\
   is_target_file (file_types (init root_h "zip")) "http://h/files/a/" = false).
Proof.
  assert (H : In "http://h/files/a/"
                (snd (extract_links (init root_h "zip") ["a/"; "x.zip"] root_h)))
    by (vm_compute; left; reflexivity).
  split; [exact H|]. exact (X7_extract_links_returns_scoped_dirs _ _ _ _ H).
Defined.

(** X8: [extract_links] changes nothing in the crawler but [zip_urls], and
    only appends to it: each URL appended is the join of the page URL with
    one of its hrefs, is in scope, is a target file, was not collected
    before, and is appended once. *)
Theorem X8_extract_links_only_collects (st : crawler) (hrefs : list string) (cur : string) :
  let st' := fst (extract_links st hrefs cur) in
  st' = set_zip_urls st (zip_urls st') /\
  exists new, zip_urls st' = (zip_urls st ++ new)%list /\ NoDup new /\
  forall u, In u new ->
    (exists h, In h hrefs /\ u = urljoin cur h) /\
    is_valid_url (base_url st) u = true /\ is_target_file (file_types st) u = true /\
    ~ In u (zip_urls st).
Proof. apply extract_links_loop_state. Qed.

Lemma enqueue_links_spec st links :
  exists new,
    enqueue_links st links =
      mk_crawler (base_url st) (file_types st) (visited_urls st ++ new)%list
        (zip_urls st) (url_queue st ++ new)%list (enqueued st ++ new)%list (errors st) /\
    NoDup new /\
    forall x, In x new <-> In x links /\ ~ In x (visited_urls st).
Proof.
  unfold enqueue_links. revert st. induction links as [|l links IH]; intros st.
  - exists []. rewrite !app_nil_r. split; [destruct st; reflexivity|].
    split; [constructor|]. intros x. simpl. tauto.
  - cbn [fold_left]. destruct (in_strings l (visited_urls st)) eqn:Hin.
    + replace (enqueue_link st l) with st by (unfold enqueue_link; now rewrite Hin).
      destruct (IH st) as [new [E [Nd Hiff]]]. exists new.
      split; [exact E|]. split; [exact Nd|]. intros x. rewrite Hiff. simpl.
      apply in_strings_spec in Hin. split; [tauto|].
      intros [[<- | Hx] Hnv]; [contradiction|now split].
    + set (st1 := enqueue_link st l).
      assert (E1 : st1 = mk_crawler (base_url st) (file_types st)
                           (visited_urls st ++ [l])%list (zip_urls st)
                           (url_queue st ++ [l])%list (enqueued st ++ [l])%list (errors st)).
      { unfold st1, enqueue_link, set_add. now rewrite Hin. }
      destruct (IH st1) as [new [E [Nd Hiff]]].
      rewrite E1 in E, Hiff. simpl in E, Hiff.
      exists (l :: new). rewrite <- !app_assoc in E. split; [rewrite E1; exact E|].
      assert (Hl : ~ In l (visited_urls st))
        by (intros Hc; apply in_strings_spec in Hc; congruence).
      split.
      * constructor; [|exact Nd]. intros Hc. apply Hiff in Hc as [_ Hc].
        apply Hc. apply in_or_app. right. now left.
      * intros x. simpl. rewrite Hiff. split.
        -- intros [<- | [Hx Hnv]]; [split; [now left|exact Hl]|].
           split; [now right|]. intros Hc. apply Hnv. now apply in_or_app; left.
        -- intros [[<- | Hx] Hnv]; [now left|].
           destruct (string_dec l x) as [<- | Hne]; [now left|right].
           split; [exact Hx|]. intros Hc. apply in_app_or in Hc as [Hc | [Hc | []]];
             [contradiction|congruence].
Qed.


Lemma crawl_url_grows st u r :
  exists newv newz e,
    crawl_url st u r =
      mk_crawler (base_url st) (file_types st) (visited_urls st ++ newv)%list
        (zip_urls st ++ newz)%list (url_queue st ++ newv)%list
        (enqueued st ++ newv)%list (errors st ++ e)%list /\
    NoDup newv /\ (forall x, In x newv -> ~ In x (visited_urls st)).
Proof.
  assert (Hnil : st = mk_crawler (base_url st) (file_types st) (visited_urls st ++ [])%list
                        (zip_urls st ++ [])%list (url_queue st ++ [])%list
                        (enqueued st ++ [])%list (errors st ++ [])%list)
    by (rewrite !app_nil_r; destruct st; reflexivity).
  assert (Hlog : exists newv newz e,
             log_error st u =
               mk_crawler (base_url st) (file_types st) (visited_urls st ++ newv)%list
                 (zip_urls st ++ newz)%list (url_queue st ++ newv)%list
                 (enqueued st ++ newv)%list (errors st ++ e)%list /\
             NoDup newv /\ (forall x, In x newv -> ~ In x (visited_urls st))).
  { exists [], [], [u]. unfold log_error. rewrite !app_nil_r.
    split; [reflexivity|]. split; [constructor|]. intros x []. }
  unfold crawl_url. destruct (is_directory u); simpl.
  2:{ exists [], [], []. split; [exact Hnil|]. split; [constructor|]. intros x []. }
  destruct r as [| |status hrefs]; [exact Hlog|exact Hlog|].
  destruct (raise_for_status status); [exact Hlog|].
  unfold extract_links.
  destruct (extract_links_loop_state st u hrefs []) as [E [newz [Z _]]].
  destruct (extract_links_loop st u hrefs []) as [st' links]. simpl in E, Z.
  destruct (enqueue_links_spec st' links) as [newv [Eq [Nd Hiff]]].
  assert (Hf : base_url st' = base_url st /\ file_types st' = file_types st /\
               visited_urls st' = visited_urls st /\ url_queue st' = url_queue st /\
               enqueued st' = enqueued st /\ errors st' = errors st)
    by (rewrite E; destruct st; repeat split).
  destruct Hf as (H1 & H2 & H3 & H4 & H5 & H6).
  exists newv, newz, []. rewrite Eq, H1, H2, H3, H4, H5, H6, Z, app_nil_r.
  split; [reflexivity|]. split; [exact Nd|].
  intros x Hx. rewrite <- H3. exact (proj2 (proj1 (Hiff x) Hx)).
Qed.

Lemma reachable_queue_inv w :
  reachable w ->
  enqueued (shared w) = base_url (shared w) :: visited_urls (shared w) /\
  NoDup (visited_urls (shared w)) /\
  exists p, enqueued (shared w) = (p ++ url_queue (shared w))%list.
Proof.
  induction 1 as [base ft n | w i w' Hr [He [Nd [p Hp]]] Hstep].
  - simpl. split; [reflexivity|]. split; [constructor|]. now exists [].
  - inversion Hstep as [w0 i0 u q Hi Hq | w0 i0 Hi Hq | w0 i0 u r Hi]; subst; simpl.
    + split; [exact He|]. split; [exact Nd|].
      exists (p ++ [u])%list. rewrite Hp, Hq, <- app_assoc. reflexivity.
    + split; [exact He|]. split; [exact Nd|]. now exists p.
    + destruct (crawl_url_grows (shared w) u r) as (newv & newz & e & Ec & Ndv & Hfresh).
      rewrite Ec. simpl. split; [rewrite He; reflexivity|].
      split; [apply NoDup_app; [exact Nd|exact Ndv|]|].
      * intros a Ha Hb. exact (Hfresh a Hb Ha).
      * exists p. rewrite Hp, app_assoc. reflexivity.
Qed.

(** ** The worker threads *)

(** X10: in every state the threads can reach, no URL has been put on the
    queue twice, except the base URL, which at most twice. *)
Theorem X10_enqueued_at_most_once (w : world) (Hw : reachable w) (u : string) :
  count_occ string_dec (enqueued (shared w)) u <=
    (if String.eqb u (base_url (shared w)) then 2 else 1).
Proof.
  destruct (reachable_queue_inv w Hw) as [He [Nd _]]. rewrite He.
  pose proof (proj1 (NoDup_count_occ string_dec _) Nd u) as Hc.
  cbn [count_occ]. destruct (string_dec (base_url (shared w)) u) as [<- | Hne].
  - rewrite String.eqb_refl. lia.
  - destruct (String.eqb u (base_url (shared w))) eqn:E; [lia|exact Hc].
Qed.

Lemma X10_witness :
  reachable (after_root "zip" ["a/"; "b/"; "a/"]) /\
  count_occ string_dec (enqueued (shared (after_root "zip" ["a/"; "b/"; "a/"])))
    "http://h/files/a/" <=
    (if String.eqb "http://h/files/a/" (base_url (shared (after_root "zip" ["a/"; "b/"; "a/"])))
     then 2 else 1).
Proof.
  split; [apply reachable_after_root|].
  apply X10_enqueued_at_most_once. apply reachable_after_root.
Defined.

(** X11: the queue is first in, first out: in every reachable state the
    queue holds exactly the latest URLs put on it, in the order they were
    put, so the URLs are got in the order they were put and none is lost. *)
Theorem X11_queue_fifo (w : world) (Hw : reachable w) :
  exists p, enqueued (shared w) = (p ++ url_queue (shared w))%list.
Proof. exact (proj2 (proj2 (reachable_queue_inv w Hw))). Qed.

Lemma X11_witness :
  reachable (after_root "zip" ["a/"; "b/"]) /\
  exists p, enqueued (shared (after_root "zip" ["a/"; "b/"])) =
              (p ++ url_queue (shared (after_root "zip" ["a/"; "b/"])))%list.
Proof.
  split; [apply reachable_after_root|].
  apply X11_queue_fifo. apply reachable_after_root.
Defined.

(** X12: no step of a worker removes or reorders anything in [visited_urls]
    or [zip_urls]: both only grow at the end, and the base URL and file
    types never change. *)
Theorem X12_step_only_appends (w w' : world) (i : nat) (Hs : worker_step w i w') :
  base_url (shared w') = base_url (shared w) /\
  file_types (shared w') = file_types (shared w) /\
  (exists newv, visited_urls (shared w') = (visited_urls (shared w) ++ newv)%list) /\
  (exists newz, zip_urls (shared w') = (zip_urls (shared w) ++ newz)%list).
Proof.
  inversion Hs as [w0 i0 u q Hi Hq | w0 i0 Hi Hq | w0 i0 u r Hi]; subst; simpl.
  - repeat split; exists []; now rewrite app_nil_r.
  - repeat split; exists []; now rewrite app_nil_r.
  - destruct (crawl_url_grows (shared w) u r) as (newv & newz & e & Ec & _).
    rewrite Ec. simpl. repeat split; [now exists newv|now exists newz].
Qed.

Lemma X12_witness :
  worker_step two_w2 1 two_w3 /\
  base_url (shared two_w3) = base_url (shared two_w2) /\
  file_types (shared two_w3) = file_types (shared two_w2) /\
  (exists newv, visited_urls (shared two_w3) = (visited_urls (shared two_w2) ++ newv)%list) /\
  (exists newz, zip_urls (shared two_w3) = (zip_urls (shared two_w2) ++ newz)%list).
Proof.
  assert (Hs : worker_step two_w2 1 two_w3)
    by (apply (step_crawl two_w2 1 root_h (FetchResponse 200 ["a/"])); reflexivity).
  split; [exact Hs|]. exact (X12_step_only_appends _ _ _ Hs).
Defined.

(** ** test_connection.py *)

Lemma test_connection_loop_spec (get : string -> fetch_result) (urls : list string) :
  let '(requested, ok) := test_connection_loop get urls in
  ok = existsb (answers_200 get) urls /\
  (ok = false -> requested = urls) /\
  (ok = true -> exists pre u rest,
     urls = (pre ++ u :: rest)%list /\ requested = (pre ++ [u])%list /\
     answers_200 get u = true /\ forall v, In v pre -> answers_200 get v = false).
Proof.
  induction urls as [|url rest IH].
  - simpl. split; [reflexivity|]. split; [reflexivity|discriminate].
  - assert (Hnext : answers_200 get url = false ->
              let '(requested, ok) :=
                let '(r, b) := test_connection_loop get rest in (url :: r, b) in
              ok = existsb (answers_200 get) (url :: rest) /\
              (ok = false -> requested = url :: rest) /\
              (ok = true -> exists pre u rest',
                 url :: rest = (pre ++ u :: rest')%list /\ requested = (pre ++ [u])%list /\
                 answers_200 get u = true /\
                 forall v, In v pre -> answers_200 get v = false)).
    { intros Hno. destruct (test_connection_loop get rest) as [r b].
      destruct IH as [Hb [Hf Ht]]. simpl. rewrite Hno. split; [exact Hb|].
      split; [intros H; now rewrite (Hf H)|].
      intros H. destruct (Ht H) as (pre & u & rest' & E & R & Hu & Hpre).
      exists (url :: pre), u, rest'. rewrite E, R.
      split; [reflexivity|]. split; [reflexivity|]. split; [exact Hu|].
      intros v [<- | Hv]; [exact Hno|exact (Hpre v Hv)]. }
    cbn [test_connection_loop].
    destruct (get url) as [| |status hs] eqn:G;
      [apply Hnext; unfold answers_200; now rewrite G ..|].
    destruct (status =? 200) eqn:S.
    + assert (Hu : answers_200 get url = true) by (unfold answers_200; now rewrite G).
      simpl. rewrite Hu. split; [reflexivity|]. split; [discriminate|].
      intros _. exists [], url, rest. split; [reflexivity|]. split; [reflexivity|].
      split; [exact Hu|]. intros v [].
    + apply Hnext. unfold answers_200. now rewrite G.
Qed.

(** X13: [test_connection] returns True exactly when one of its five URLs
    answers with status 200; it requests the URLs in list order and stops at
    the first that answers 200, and when it returns False it has requested
    all five. *)
Theorem X13_test_connection_first_200 (get : string -> fetch_result) :
  let '(requested, ok) := test_connection get in
  ok = existsb (answers_200 get) urls_to_test /\
  (ok = false -> requested = urls_to_test) /\
  (ok = true -> exists pre u rest,
     urls_to_test = (pre ++ u :: rest)%list /\ requested = (pre ++ [u])%list /\
     answers_200 get u = true /\ forall v, In v pre -> answers_200 get v = false).
Proof. apply test_connection_loop_spec. Qed.
